(** * Expression nodes of the Python target: a shallow embedding

    This development embeds [ox/target/python/expr_ast.py]: the node
    taxonomy, the argument generator behind [Call.from_args] and
    [Call.add_args], the wrapping predicates and the [tokens] renderers,
    and proves the properties stated for them.

    Conventions.
    - A Python call that may raise returns a [result]: [Ok v] or [Err e].
    - A generator is kept as the list of values it yielded together with
      the exception that ended it, if any ([Gen]); [list(...)] of a
      generator is [list_of_gen].
    - The rendering context [ctx] is only ever forwarded to the children,
      so the renderers do not carry it.
    - Node metadata ([_attrs]) plays no part in any function below. *)

From Stdlib Require Import String Ascii List ZArith Bool Lia.
From Stdlib Require Import DecimalString DecimalPos DecimalZ.
Import ListNotations.
Local Open Scope string_scope.
Local Open Scope list_scope.

(** ** Exceptions and the error monad *)

(** The built-in exception classes raised by the module, with their message.
    [UnsupportedValueError] is the failure of the coercion registry, whose
    code is outside this module. *)
Inductive Exc : Type :=
| TypeError (msg : string)
| ValueError (msg : string)
| RuntimeError (msg : string)
| UnsupportedValueError (cls_name : string).

Inductive result (A : Type) : Type :=
| Ok (v : A)
| Err (e : Exc).
Arguments Ok {A} v.
Arguments Err {A} e.

Definition bind {A B : Type} (m : result A) (k : A -> result B) : result B :=
  match m with
  | Ok v => k v
  | Err e => Err e
  end.

Notation "x <- m ;; k" := (bind m (fun x => k))
  (at level 61, m at next level, right associativity).


(** ** Host values *)

(** The values of [PyAtom]: None, Ellipsis, bool, int, float, complex, str
    and bytes.  A float and a complex are kept by the text [repr] gives
    for them, which determines the value. *)
Inductive PyAtomV : Type :=
| VNone
| VEllipsis
| VBool (b : bool)
| VInt (z : Z)
| VFloat (repr : string)
| VComplex (repr : string)
| VStr (s : string)
| VBytes (b : string).

(** Modelled from the spec: the operators module is not among the sources.
    [BinaryOpEnum] lists the arithmetic and bitwise binary operators of
    Python, [value] is the operator's symbol and [precedence_level] a total
    order following the grammar of Python (a larger level binds tighter). *)
Module BinaryOpEnum.
Inductive t : Type :=
| BitOr | BitXor | BitAnd | LShift | RShift
| Add | Sub | Mul | MatMul | TrueDiv | FloorDiv | Mod | Pow.

Definition value (op : t) : string :=
  match op with
  | BitOr => "|" | BitXor => "^" | BitAnd => "&"
  | LShift => "<<" | RShift => ">>"
  | Add => "+" | Sub => "-"
  | Mul => "*" | MatMul => "@" | TrueDiv => "/" | FloorDiv => "//"
  | Mod => "%" | Pow => "**"
  end.

Definition precedence_level (op : t) : Z :=
  match op with
  | BitOr => 1 | BitXor => 2 | BitAnd => 3
  | LShift | RShift => 4
  | Add | Sub => 5
  | Mul | MatMul | TrueDiv | FloorDiv | Mod => 6
  | Pow => 7
  end%Z.
End BinaryOpEnum.

(** Modelled from the spec: the unary operators [+], [-], [~] and [not]. *)
Module UnaryOpEnum.
Inductive t : Type := Pos | Neg | Invert | Not.

Definition value (op : t) : string :=
  match op with
  | Pos => "+" | Neg => "-" | Invert => "~" | Not => "not "
  end.
End UnaryOpEnum.

(** ** The node taxonomy *)

Local Set Warnings "-register-all".

(** One constructor per concrete class of the module, with the fields in
    the order of the class annotations.  [Call.args] and [Lambda.args] are
    [Tree] nodes whose only content is their list of children. *)
Inductive Expr : Type :=
| Void
| Atom (value : PyAtomV)
| Name (value : string)
| And (lhs rhs : Expr)
| Or (lhs rhs : Expr)
| UnaryOp (tag : UnaryOpEnum.t) (expr : Expr)
| BinOp (tag : BinaryOpEnum.t) (lhs rhs : Expr)
| Starred (expr : Expr) (kwstar : bool)
| Keyword (expr : Expr) (name : string)
| GetAttr (expr : Expr) (attr : string)
| Call (expr : Expr) (args : list Expr)
| Yield (expr : Expr)
| YieldFrom (expr : Expr)
| Lambda (args : list Expr) (expr : Expr) (vararg : option string)
         (kwarg : bool)
| ArgDef (name default annotation : Expr)
| Ternary (cond then_ other : Expr).

(** A host value handed to the module: an atom value, an expression node,
    or an object of some other class, of which only the class name is
    ever looked at. *)
Inductive pyval : Type :=
| PAtom (a : PyAtomV)
| PExpr (e : Expr)
| POther (cls_name : string).

Definition PStr (s : string) : pyval := PAtom (VStr s).

(** [arg.__class__.__name__] *)
Definition cls_name (v : pyval) : string :=
  match v with
  | PAtom VNone => "NoneType"
  | PAtom VEllipsis => "ellipsis"
  | PAtom (VBool _) => "bool"
  | PAtom (VInt _) => "int"
  | PAtom (VFloat _) => "float"
  | PAtom (VComplex _) => "complex"
  | PAtom (VStr _) => "str"
  | PAtom (VBytes _) => "bytes"
  | PExpr Void => "Void"
  | PExpr (Atom _) => "Atom"
  | PExpr (Name _) => "Name"
  | PExpr (And _ _) => "And"
  | PExpr (Or _ _) => "Or"
  | PExpr (UnaryOp _ _) => "UnaryOp"
  | PExpr (BinOp _ _ _) => "BinOp"
  | PExpr (Starred _ _) => "Starred"
  | PExpr (Keyword _ _) => "Keyword"
  | PExpr (GetAttr _ _) => "GetAttr"
  | PExpr (Call _ _) => "Call"
  | PExpr (Yield _) => "Yield"
  | PExpr (YieldFrom _) => "YieldFrom"
  | PExpr (Lambda _ _ _ _) => "Lambda"
  | PExpr (ArgDef _ _ _) => "ArgDef"
  | PExpr (Ternary _ _ _) => "Ternary"
  | POther c => c
  end.

(** [isinstance(value, (int, float, complex))]: [bool] is a subclass of
    [int], so a boolean passes the test. *)
Definition isinstance_number (a : PyAtomV) : bool :=
  match a with
  | VBool _ | VInt _ | VFloat _ | VComplex _ => true
  | VNone | VEllipsis | VStr _ | VBytes _ => false
  end.

(** The numeric kinds of the data model: integer, float and complex. *)
Definition numeric_kind (a : PyAtomV) : bool :=
  match a with
  | VInt _ | VFloat _ | VComplex _ => true
  | _ => false
  end.

(** Class tests on nodes. *)
Definition is_Void (e : Expr) : bool :=
  match e with Void => true | _ => false end.
Definition is_BinOp (e : Expr) : bool :=
  match e with BinOp _ _ _ => true | _ => false end.
Definition is_UnaryOp (e : Expr) : bool :=
  match e with UnaryOp _ _ => true | _ => false end.
Definition is_And (e : Expr) : bool :=
  match e with And _ _ => true | _ => false end.
Definition is_Or (e : Expr) : bool :=
  match e with Or _ _ => true | _ => false end.
Definition is_Ternary (e : Expr) : bool :=
  match e with Ternary _ _ _ => true | _ => false end.

(** [isinstance(e, (BinOp, UnaryOp, And, Or))] *)
Definition is_operator_node (e : Expr) : bool :=
  is_BinOp e || is_UnaryOp e || is_And e || is_Or e.

(** Modelled from the spec: the truth value of a node, defined by the mixins
    of the tree package; [Void] stands for an absent expression and is the
    only node that is false. *)
Definition truthy (e : Expr) : bool := negb (is_Void e).

(** ** Coercion *)

(** Modelled from the spec: [to_expr] is [Expr._meta.coerce], whose code is
    in the tree package.  A node is returned unchanged, a plain string
    becomes a [Name], any other atom value an [Atom], and a value of a class
    without a registered handler is refused. *)
Definition to_expr (v : pyval) : result Expr :=
  match v with
  | PExpr e => Ok e
  | PAtom (VStr s) => Ok (Name s)
  | PAtom a => Ok (Atom a)
  | POther c => Err (UnsupportedValueError c)
  end.

(** Modelled from the spec: the constructors inherited from the tree
    package coerce the children they are given with [to_expr]. *)
Definition Starred_new (v : pyval) (kwstar : bool) : result Expr :=
  e <- to_expr v ;; Ok (Starred e kwstar).

Definition Keyword_new (v : pyval) (name : string) : result Expr :=
  e <- to_expr v ;; Ok (Keyword e name).

(** ** The argument generator *)

(** What a generator did when run to its end: the values it yielded, in
    order, and the exception that stopped it, if one did. *)
Definition Gen : Type := (list Expr * option Exc)%type.

Definition gen_done : Gen := ([], None).
Definition gen_raise (e : Exc) : Gen := ([], Some e).
Definition gen_yield (x : Expr) (g : Gen) : Gen := (x :: fst g, snd g).

(** Evaluate a constructor call, then yield its value and go on; an
    exception of the constructor ends the generator. *)
Definition gen_yield_new (r : result Expr) (g : Gen) : Gen :=
  match r with
  | Ok x => gen_yield x g
  | Err e => gen_raise e
  end.

(** [list(g)] *)
Definition list_of_gen (g : Gen) : result (list Expr) :=
  match snd g with
  | None => Ok (fst g)
  | Some e => Err e
  end.

(** [arg[n:]] *)
Fixpoint str_from (n : nat) (s : string) : string :=
  match n, s with
  | O, _ => s
  | S n', String _ s' => str_from n' s'
  | S _, EmptyString => EmptyString
  end.

Definition startswith (p s : string) : bool := String.prefix p s.

Definition msg : string :=
  "cannot set positional argument after keyword argument".

(** [next(args)] on the exhausted iterator raises [StopIteration] inside
    the generator body, which leaves the generator as this RuntimeError. *)
Definition stop_iteration : Exc :=
  RuntimeError "generator raised StopIteration".

(** The [for arg in args] loop of [generate_args], from the state
    [has_keyword]; [kw] is what runs after the loop.  [next(args)] takes
    the item that follows a bare marker, without looking at its class. *)
Fixpoint generate_args_loop (has_keyword : bool) (args : list pyval)
    (kw : Gen) {struct args} : Gen :=
  match args with
  | [] => kw
  | PAtom (VStr arg) :: rest =>
      if startswith "**" arg then
        if String.eqb arg "**" then
          match rest with
          | [] => gen_raise stop_iteration
          | v :: rest' =>
              gen_yield_new (Starred_new v true)
                (generate_args_loop true rest' kw)
          end
        else
          gen_yield (Starred (Name (str_from 2 arg)) true)
            (generate_args_loop true rest kw)
      else if startswith "*" arg then
        if has_keyword then gen_raise (ValueError msg)
        else if String.eqb arg "*" then
          match rest with
          | [] => gen_raise stop_iteration
          | v :: rest' =>
              gen_yield_new (Starred_new v false)
                (generate_args_loop has_keyword rest' kw)
          end
        else
          gen_yield (Starred (Name (str_from 1 arg)) false)
            (generate_args_loop has_keyword rest kw)
      else gen_raise (TypeError "expect expression, got str")
  | PExpr e :: rest =>
      gen_yield e (generate_args_loop has_keyword rest kw)
  | v :: rest =>
      gen_raise (TypeError ("expect expression, got " ++ cls_name v))
  end.

(** [for name, value in kwargs.items(): yield Keyword(value, name=name)] *)
Fixpoint generate_kwargs (kwargs : list (string * pyval)) : Gen :=
  match kwargs with
  | [] => gen_done
  | (name, value) :: rest =>
      gen_yield_new (Keyword_new value name) (generate_kwargs rest)
  end.

(** [generate_args], given the positional inputs and the keyword inputs in
    the order of the call. *)
Definition generate_args (args : list pyval) (kwargs : list (string * pyval))
    : Gen :=
  generate_args_loop false args (generate_kwargs kwargs).

(** The spec calls [list(generate_args(...))] [build_arguments]. *)
Definition build_arguments (args : list pyval)
    (kwargs : list (string * pyval)) : result (list Expr) :=
  list_of_gen (generate_args args kwargs).

(** ** Call nodes *)

(** [Call.from_args], for the callee [e]. *)
Definition from_args (e : Expr) (args : list pyval)
    (kwargs : list (string * pyval)) : result Expr :=
  children <- list_of_gen (generate_args args kwargs) ;;
  Ok (Call e children).

(** [Call.add_args] on the node [Call expr children]: the
    children of the node after the call, and what the call returns or
    raises.  The list is extended only once the generator has been run to
    its end, so an exception leaves the node as it was. *)
Definition add_args (expr : Expr) (children : list Expr) (args : list pyval)
    (kwargs : list (string * pyval)) : list Expr * result (list Expr) :=
  match list_of_gen (generate_args args kwargs) with
  | Ok new => (children ++ new, Ok new)
  | Err e => (children, Err e)
  end.

(** A keyword argument or a double-starred one; [keyword_terminated] holds
    of an argument list whose last argument is one. *)
Definition keyword_like (e : Expr) : bool :=
  match e with
  | Keyword _ _ => true
  | Starred _ true => true
  | _ => false
  end.

Definition keyword_terminated (children : list Expr) : bool :=
  match rev children with
  | last :: _ => keyword_like last
  | [] => false
  end.

(** Error families of the spec, as sets of exceptions of the code. *)
Definition ArgumentOrderError (e : Exc) : bool :=
  match e with
  | ValueError m => String.eqb m msg
  | _ => false
  end.

Definition void_prefix : string := "invalid operation with void node: ".

Definition InvalidOperandError (e : Exc) : bool :=
  match e with
  | TypeError m => startswith void_prefix m
  | _ => false
  end.

Definition raises {A : Type} (family : Exc -> bool) (r : result A) : bool :=
  match r with
  | Ok _ => false
  | Err e => family e
  end.

(** The value of [has_keyword] when the loop has gone through [args]
    without raising, from the value [has_keyword] it started with. *)
Fixpoint has_keyword_after (has_keyword : bool) (args : list pyval)
    {struct args} : bool :=
  match args with
  | [] => has_keyword
  | PAtom (VStr arg) :: rest =>
      if startswith "**" arg then
        if String.eqb arg "**" then
          match rest with
          | [] => true
          | _ :: rest' => has_keyword_after true rest'
          end
        else has_keyword_after true rest
      else if String.eqb arg "*" then
        match rest with
        | [] => has_keyword
        | _ :: rest' => has_keyword_after has_keyword rest'
        end
      else has_keyword_after has_keyword rest
  | _ :: rest => has_keyword_after has_keyword rest
  end.

(** The generator that yields [out] and then behaves as [g]. *)
Definition gen_prepend (out : list Expr) (g : Gen) : Gen :=
  (out ++ fst g, snd g).

(** A single-starred input: the bare marker or the [*name] shorthand. *)
Definition single_star (arg : string) : bool :=
  startswith "*" arg && negb (startswith "**" arg).

(** The generator that runs [g] and, when [g] ends without raising, goes
    on as [k]. *)
Definition gen_then (g k : Gen) : Gen :=
  match snd g with
  | None => gen_prepend (fst g) k
  | Some e => g
  end.

(** [isinstance(arg, str)] and [isinstance(arg, Expr)] *)
Definition is_str (v : pyval) : bool :=
  match v with PAtom (VStr _) => true | _ => false end.
Definition is_Expr (v : pyval) : bool :=
  match v with PExpr _ => true | _ => false end.

Definition is_Keyword (e : Expr) : bool :=
  match e with Keyword _ _ => true | _ => false end.

(** An input that is not itself a [Starred] node. *)
Definition not_Starred_input (v : pyval) : bool :=
  match v with
  | PExpr (Starred _ _) => false
  | _ => true
  end.

(** No single-starred argument of [l] comes after a double-starred one,
    [seen] telling whether a double-starred one came before [l]. *)
Fixpoint star_ordered (seen : bool) (l : list Expr) : bool :=
  match l with
  | [] => true
  | Starred _ true :: rest => star_ordered true rest
  | Starred _ false :: rest => negb seen && star_ordered seen rest
  | _ :: rest => star_ordered seen rest
  end.

(** Keyword inputs whose values are nodes, and the [Keyword] nodes made of
    them. *)
Definition kwargs_of_nodes (kws : list (string * Expr))
    : list (string * pyval) :=
  map (fun p => (fst p, PExpr (snd p))) kws.

Definition keyword_nodes (kws : list (string * Expr)) : list Expr :=
  map (fun p => Keyword (snd p) (fst p)) kws.

(** [ArgDef.__init__]: a [default] or an [annotation] that is None, passed
    or left out, becomes [Void()]; the three children then go to the
    inherited constructor, which coerces them (see [Starred_new]). *)
Definition ArgDef_init (name default annotation : pyval) : result Expr :=
  let default :=
    match default with PAtom VNone => PExpr Void | _ => default end in
  let annotation :=
    match annotation with PAtom VNone => PExpr Void | _ => annotation end in
  n <- to_expr name ;;
  d <- to_expr default ;;
  a <- to_expr annotation ;;
  Ok (ArgDef n d a).


(** Induction on nodes, with the children of a [Call] as a list. *)
Section Expr_induction.

Variable P : Expr -> Prop.
Hypothesis P_Void : P Void.
Hypothesis P_Atom : forall value, P (Atom value).
Hypothesis P_Name : forall value, P (Name value).
Hypothesis P_And : forall lhs rhs, P lhs -> P rhs -> P (And lhs rhs).
Hypothesis P_Or : forall lhs rhs, P lhs -> P rhs -> P (Or lhs rhs).
Hypothesis P_UnaryOp : forall tag expr, P expr -> P (UnaryOp tag expr).
Hypothesis P_BinOp :
  forall tag lhs rhs, P lhs -> P rhs -> P (BinOp tag lhs rhs).
Hypothesis P_Starred : forall expr kwstar, P expr -> P (Starred expr kwstar).
Hypothesis P_Keyword : forall expr name, P expr -> P (Keyword expr name).
Hypothesis P_GetAttr : forall expr attr, P expr -> P (GetAttr expr attr).
Hypothesis P_Call :
  forall expr children, P expr -> Forall P children -> P (Call expr children).
Hypothesis P_Yield : forall expr, P expr -> P (Yield expr).
Hypothesis P_YieldFrom : forall expr, P expr -> P (YieldFrom expr).
Hypothesis P_Lambda :
  forall args expr vararg kwarg, P (Lambda args expr vararg kwarg).
Hypothesis P_ArgDef :
  forall name default annotation,
    P name -> P default -> P annotation -> P (ArgDef name default annotation).
Hypothesis P_Ternary :
  forall cond then_ other,
    P cond -> P then_ -> P other -> P (Ternary cond then_ other).


End Expr_induction.

(** A name that the shorthand can carry: not empty, and not beginning
    with a star. *)
Definition plain_name (n : string) : bool :=
  negb (String.eqb n "") && negb (startswith "*" n).

(** The inputs ["*n"] for the names of [ns], then ["**k"] for those of
    [ks]. *)
Definition star_args (ns ks : list string) : list pyval :=
  map (fun n => PStr ("*" ++ n)) ns ++ map (fun k => PStr ("**" ++ k)) ks.

(** A text enclosed in a pair of parentheses when [wrap] holds. *)
Definition paren_text (wrap : bool) (s : string) : string :=
  if wrap then "(" ++ s ++ ")" else s.

(** ** Rendering *)

(** Modelled from the spec: [wrap_tokens] of the tree package encloses the
    fragments in parentheses when [wrap] holds, which is its default. *)
Definition wrap_tokens (toks : result (list string)) (wrap : bool)
    : result (list string) :=
  if wrap then t <- toks ;; Ok ("(" :: t ++ [")"]) else toks.

(** Fragments enclosed in a pair of parentheses when [wrap] holds. *)
Definition parens_if (wrap : bool) (t : list string) : list string :=
  if wrap then "(" :: t ++ [")"] else t.

(** The fragment lists of [ts] in order, with [sep] between two
    consecutive ones. *)
Fixpoint interleave (sep : string) (ts : list (list string)) : list string :=
  match ts with
  | [] => []
  | [t] => t
  | t :: ts' => t ++ sep :: interleave sep ts'
  end.

(** [BinOp.wrap_child_tokens], for a parent whose operator is [tag]. *)
Definition BinOp_wrap_child_tokens (tag : BinaryOpEnum.t) (child : Expr)
    (role : string) : bool :=
  match child with
  | BinOp ctag _ _ =>
      (BinaryOpEnum.precedence_level ctag
       <? BinaryOpEnum.precedence_level tag)%Z
  | UnaryOp _ _ | And _ _ | Or _ _ => true
  | _ => false
  end.

(** [GetAttr.wrap_child_tokens]: the test is made on the node's own
    [expr], whatever [child] is. *)
Definition GetAttr_wrap_child_tokens (self_expr : Expr) (child : Expr)
    (role : string) : bool :=
  let value := self_expr in
  if is_operator_node value then true
  else match value with
       | Atom v => if isinstance_number v then true else false
       | _ => false
       end.

(** [isinstance(e, Atom) and isinstance(e.value, (int, float, complex))] *)
Definition is_number_atom (e : Expr) : bool :=
  match e with
  | Atom v => isinstance_number v
  | _ => false
  end.

(** The test [Call.tokens] and [GetAttr.wrap_child_tokens] make on the
    callee and on the base. *)
Definition base_wrapped (e : Expr) : bool :=
  is_operator_node e || is_number_atom e.

(** The same test with the numeric kinds of the data model, where a
    boolean is not a number. *)
Definition base_wrapped_numeric_kind (e : Expr) : bool :=
  is_operator_node e ||
  match e with
  | Atom v => numeric_kind v
  | _ => false
  end.

(** [repr] of an int *)
Definition repr_int (z : Z) : string := NilZero.string_of_int (Z.to_int z).

Section Host.

(** What the host and the tree package provide and this module only
    calls: [repr] of a str and of a bytes value, the rendering that
    [Lambda] inherits, the functions behind the operator tags and the
    lookup of a tag by name. *)
Variable repr_str : string -> string.
Variable repr_bytes : string -> string.
Variable Lambda_tokens :
  list Expr -> Expr -> option string -> bool -> result (list string).
Variable BinaryOp_function :
  BinaryOpEnum.t -> pyval -> pyval -> result pyval.
Variable UnaryOp_function : UnaryOpEnum.t -> pyval -> result pyval.
Variable BinaryOp_from_name : pyval -> result BinaryOpEnum.t.
Variable UnaryOp_from_name : pyval -> result UnaryOpEnum.t.

(** [repr(value)] *)
Definition repr (a : PyAtomV) : string :=
  match a with
  | VNone => "None"
  | VEllipsis => "Ellipsis"
  | VBool true => "True"
  | VBool false => "False"
  | VInt z => repr_int z
  | VFloat r => r
  | VComplex r => r
  | VStr s => repr_str s
  | VBytes b => repr_bytes b
  end.

(** [Atom.tokens] *)
Definition Atom_tokens (value : PyAtomV) : list string :=
  [match value with VEllipsis => "..." | _ => repr value end].

(** [tokens], by the class of the node.  The bodies of [Atom], [UnaryOp],
    [BinOp], [Starred], [Keyword], [Call], [ArgDef] and [Ternary] are
    those of the module.
    Modelled from the spec: the renderers that the mixins of the tree
    package provide, namely [Name] (its identifier), [And], [Or], [Yield]
    and [YieldFrom] (their [command] template), [GetAttr] (base wrapped
    by [wrap_child_tokens], a dot, the attribute), [Void] (an error), and
    [child_tokens], which wraps a child's fragments when the parent's
    [wrap_child_tokens] says so. *)
Fixpoint tokens (e : Expr) : result (list string) :=
  match e with
  | Void => Err (TypeError (void_prefix ++ "tokens")%string)
  | Atom value => Ok (Atom_tokens value)
  | Name value => Ok [value]
  | And lhs rhs =>
      l <- tokens lhs ;; r <- tokens rhs ;; Ok (l ++ " and " :: r)
  | Or lhs rhs =>
      l <- tokens lhs ;; r <- tokens rhs ;; Ok (l ++ " or " :: r)
  | UnaryOp op expr =>
      t <- tokens expr ;; Ok (UnaryOpEnum.value op :: t)
  | BinOp op lhs rhs =>
      l <- wrap_tokens (tokens lhs) (BinOp_wrap_child_tokens op lhs "lhs") ;;
      r <- wrap_tokens (tokens rhs) (BinOp_wrap_child_tokens op rhs "rhs") ;;
      Ok (l ++ (" " ++ BinaryOpEnum.value op ++ " ")%string :: r)
  | Starred expr kwstar =>
      let wrap := is_And expr || is_Or expr in
      t <- wrap_tokens (tokens expr) wrap ;;
      Ok ((if kwstar then "**" else "*") :: t)
  | Keyword expr name =>
      t <- tokens expr ;; Ok (name :: "=" :: t)
  | GetAttr expr attr =>
      b <- wrap_tokens (tokens expr)
             (GetAttr_wrap_child_tokens expr expr "expr") ;;
      Ok (b ++ ["."; attr])
  | Call expr children =>
      f <- (if is_operator_node expr then wrap_tokens (tokens expr) true
            else if is_number_atom expr then wrap_tokens (tokens expr) true
            else tokens expr) ;;
      a <- match children with
           | [] => Ok []
           | arg :: children' =>
               first <- tokens arg ;;
               more <- (fix loop (l : list Expr) : result (list string) :=
                          match l with
                          | [] => Ok []
                          | arg' :: l' =>
                              t <- tokens arg' ;;
                              r <- loop l' ;;
                              Ok (", " :: t ++ r)
                          end) children' ;;
               Ok (first ++ more)
           end ;;
      Ok (f ++ "(" :: a ++ [")"])
  | Yield expr =>
      t <- tokens expr ;; Ok ("(yield " :: t ++ [")"])
  | YieldFrom expr =>
      t <- tokens expr ;; Ok ("(yield from " :: t ++ [")"])
  | Lambda args expr vararg kwarg => Lambda_tokens args expr vararg kwarg
  | ArgDef name default annotation =>
      n <- tokens name ;;
      a <- (if truthy annotation then
              a <- tokens annotation ;;
              d <- (if truthy default then
                      d <- tokens default ;; Ok (" = " :: d)
                    else Ok []) ;;
              Ok (": " :: a ++ d)
            else Ok []) ;;
      d <- (if truthy default then
              d <- tokens default ;; Ok ("=" :: d)
            else Ok []) ;;
      Ok (n ++ a ++ d)
  | Ternary cond then_ other =>
      t <- wrap_tokens (tokens then_) (is_Ternary then_) ;;
      c <- wrap_tokens (tokens cond) (is_Ternary cond) ;;
      o <- tokens other ;;
      Ok (t ++ " if " :: c ++ " else " :: o)
  end.

(** The source text of a node: its fragments, joined. *)
Definition render (e : Expr) : result string :=
  t <- tokens e ;; Ok (String.concat "" t).

(** The fragments of each node of a list, in list order; the first
    node that fails to render decides the error. *)
Fixpoint tokens_all (l : list Expr) : result (list (list string)) :=
  match l with
  | [] => Ok []
  | arg :: l' =>
      t <- tokens arg ;; ts <- tokens_all l' ;; Ok (t :: ts)
  end.

(** The loop of [Call.tokens] over the arguments after the first. *)
Fixpoint args_tokens_more (l : list Expr) : result (list string) :=
  match l with
  | [] => Ok []
  | arg' :: l' =>
      t <- tokens arg' ;; r <- args_tokens_more l' ;; Ok (", " :: t ++ r)
  end.

(** The source text of each node of a list, in list order. *)
Fixpoint render_all (l : list Expr) : result (list string) :=
  match l with
  | [] => Ok []
  | arg :: l' =>
      t <- render arg ;; ts <- render_all l' ;; Ok (t :: ts)
  end.

(** ** Constant folding and operator methods *)

(** [BinOp.from_static_children] *)
Definition BinOp_from_static_children (tag : BinaryOpEnum.t)
    (lhs rhs : pyval) : result Expr :=
  v <- BinaryOp_function tag lhs rhs ;; to_expr v.

(** [UnaryOp.from_static_children] *)
Definition UnaryOp_from_static_children (tag : UnaryOpEnum.t)
    (child : pyval) : result Expr :=
  v <- UnaryOp_function tag child ;; to_expr v.

(** The operator methods of [Expr], with the overrides of [Void].  The
    two methods still to be written return the Ellipsis object. *)
Definition attr (self : Expr) (attr : string) : result pyval :=
  match self with
  | Void => Err (TypeError "invalid operation with void node: getattr")
  | _ => Ok (PExpr (GetAttr self attr))
  end.

Definition index (self : Expr) (value : pyval) : result pyval :=
  match self with
  | Void => Err (TypeError "invalid operation with void node: getindex")
  | _ => Ok (PAtom VEllipsis)
  end.

Definition binary_op (self : Expr) (op : pyval) (other : pyval)
    : result pyval :=
  match self with
  | Void =>
      Err (TypeError "invalid operation with void node: binary operator")
  | _ =>
      tag <- BinaryOp_from_name op ;;
      o <- to_expr other ;;
      Ok (PExpr (BinOp tag self o))
  end.

Definition unary_op (self : Expr) (op : pyval) : result pyval :=
  match self with
  | Void =>
      Err (TypeError "invalid operation with void node: unary operator")
  | _ =>
      tag <- UnaryOp_from_name op ;;
      Ok (PExpr (UnaryOp tag self))
  end.

Definition comparison_op (self : Expr) (op : pyval) (other : pyval)
    (args : list pyval) : result pyval :=
  match self with
  | Void =>
      Err (TypeError
             "invalid operation with void node: comparison operator")
  | _ => Ok (PAtom VEllipsis)
  end.


(** ** Facts on rendering *)

Lemma wrap_tokens_parens (m : result (list string)) (wrap : bool) :
  wrap_tokens m wrap = (t <- m ;; Ok (parens_if wrap t)).
Proof. destruct wrap, m; reflexivity. Qed.

Lemma interleave_cons (sep : string) (t : list string)
    (ts : list (list string)) :
  interleave sep (t :: ts) = t ++ flat_map (fun u => sep :: u) ts.
Proof.
  revert t; induction ts as [|u ts IH]; intro t.
  - simpl. now rewrite app_nil_r.
  - change (interleave sep (t :: u :: ts))
      with (t ++ sep :: interleave sep (u :: ts)).
    rewrite IH. reflexivity.
Qed.

Lemma args_tokens_more_all (l : list Expr) :
  args_tokens_more l =
    (ts <- tokens_all l ;; Ok (flat_map (fun u => ", " :: u) ts)).
Proof.
  induction l as [|a l IH]; simpl; [reflexivity|].
  destruct (tokens a) as [t|x]; simpl; [|reflexivity].
  rewrite IH. destruct (tokens_all l); reflexivity.
Qed.

Lemma Call_tokens_unfold (e : Expr) (children : list Expr) :
  tokens (Call e children) =
    (f <- wrap_tokens (tokens e) (base_wrapped e) ;;
     a <- match children with
          | [] => Ok []
          | arg :: children' =>
              first <- tokens arg ;;
              more <- args_tokens_more children' ;;
              Ok (first ++ more)
          end ;;
     Ok (f ++ "(" :: a ++ [")"])).
Proof.
  unfold base_wrapped.
  destruct (is_operator_node e) eqn:Hop; simpl; rewrite Hop;
    [reflexivity|].
  destruct (is_number_atom e) eqn:Hnum; reflexivity.
Qed.

Lemma Call_args_interleave (children : list Expr) :
  match children with
  | [] => Ok []
  | arg :: children' =>
      first <- tokens arg ;;
      more <- args_tokens_more children' ;;
      Ok (first ++ more)
  end = (ts <- tokens_all children ;; Ok (interleave ", " ts)).
Proof.
  destruct children as [|a l]; [reflexivity|].
  simpl tokens_all. destruct (tokens a) as [t|x]; simpl; [|reflexivity].
  rewrite args_tokens_more_all.
  destruct (tokens_all l) as [ts|x]; simpl; [|reflexivity].
  now rewrite <- interleave_cons.
Qed.

(** ** The claims on rendering, folding and [Void] *)

(** C2. What [ArgDef.tokens] yields: the name, then [": "] and the
    annotation when there is one, with [" = "] and the default when there
    is a default too; and then, in every case where there is a default,
    ["="] and the default.  The last test is an [if], not an [elif], so
    an argument with both an annotation and a default renders its default
    twice: [ArgDef(Name("x"), Atom(1), Name("int"))] gives the fragments
    of [x: int = 1=1].  The three other cases render as stated. *)
Theorem ArgDef_tokens_default_twice
    (name default annotation : Expr) :
  tokens (ArgDef name default annotation) =
    (n <- tokens name ;;
     a <- (if truthy annotation then tokens annotation else Ok []) ;;
     d <- (if truthy default then tokens default else Ok []) ;;
     Ok (n ++
         (if truthy annotation
          then ": " :: a ++ (if truthy default then " = " :: d else [])
          else []) ++
         (if truthy default then "=" :: d else [])))
  /\ tokens (ArgDef (Name "x") (Atom (VInt 1)) (Name "int")) =
       Ok ["x"; ": "; "int"; " = "; "1"; "="; "1"]
  /\ tokens (ArgDef (Name "x") Void (Name "int")) = Ok ["x"; ": "; "int"]
  /\ tokens (ArgDef (Name "x") (Atom (VInt 1)) Void) = Ok ["x"; "="; "1"]
  /\ tokens (ArgDef (Name "x") Void Void) = Ok ["x"].
Proof.
  split; [|repeat split; reflexivity].
  simpl.
  destruct (tokens name) as [n|x]; simpl; [|reflexivity].
  destruct (truthy annotation); simpl.
  - destruct (tokens annotation) as [a|x]; simpl; [|reflexivity].
    destruct (truthy default); simpl.
    + destruct (tokens default) as [d|x]; reflexivity.
    + reflexivity.
  - destruct (truthy default); simpl; [|reflexivity].
    destruct (tokens default) as [d|x]; reflexivity.
Qed.

(** C4. A [BinOp] parent of operator [tag] wraps a [BinOp] child exactly
    when the child's precedence level is strictly lower than its own, in
    either role, and wraps every [UnaryOp], [And] and [Or] child; its
    fragments are those of the left child, wrapped or not by that rule,
    the operator between two spaces, and those of the right child.  So
    [BinOp(Mul, BinOp(Add, 1, 2), 3)] renders as [(1 + 2) * 3] and
    [BinOp(Add, 1, BinOp(Mul, 2, 3))] as [1 + 2 * 3]. *)
Theorem BinOp_wraps_lower_precedence
    (tag : BinaryOpEnum.t) (lhs rhs : Expr) :
  (forall ctag l r role,
      BinOp_wrap_child_tokens tag (BinOp ctag l r) role = true <->
      (BinaryOpEnum.precedence_level ctag
       < BinaryOpEnum.precedence_level tag)%Z)
  /\ (forall op e role,
        BinOp_wrap_child_tokens tag (UnaryOp op e) role = true)
  /\ (forall l r role, BinOp_wrap_child_tokens tag (And l r) role = true)
  /\ (forall l r role, BinOp_wrap_child_tokens tag (Or l r) role = true)
  /\ tokens (BinOp tag lhs rhs) =
       (l <- tokens lhs ;;
        r <- tokens rhs ;;
        Ok (parens_if (BinOp_wrap_child_tokens tag lhs "lhs") l ++
            (" " ++ BinaryOpEnum.value tag ++ " ")%string ::
            parens_if (BinOp_wrap_child_tokens tag rhs "rhs") r))
  /\ render (BinOp BinaryOpEnum.Mul
               (BinOp BinaryOpEnum.Add (Atom (VInt 1)) (Atom (VInt 2)))
               (Atom (VInt 3))) = Ok "(1 + 2) * 3"
  /\ render (BinOp BinaryOpEnum.Add (Atom (VInt 1))
               (BinOp BinaryOpEnum.Mul (Atom (VInt 2)) (Atom (VInt 3))))
     = Ok "1 + 2 * 3".
Proof.
  repeat split; try reflexivity.
  - simpl. apply Z.ltb_lt.
  - simpl. apply Z.ltb_lt.
  - simpl tokens. rewrite !wrap_tokens_parens.
    destruct (tokens lhs) as [l|x]; simpl; [|reflexivity].
    destruct (tokens rhs) as [r|x]; reflexivity.
Qed.

(** C5. [Ternary.tokens] yields the then-branch, in parentheses exactly
    when it is a [Ternary], [" if "], the condition, in parentheses
    exactly when it is a [Ternary], [" else "], and the else-branch as it
    is.  So the ternary of [c], [1] and the ternary of [d], [2], [3]
    renders as [1 if c else 2 if d else 3]. *)
Theorem Ternary_tokens_wraps_then_and_cond (cond then_ other : Expr) :
  tokens (Ternary cond then_ other) =
    (t <- tokens then_ ;;
     c <- tokens cond ;;
     o <- tokens other ;;
     Ok (parens_if (is_Ternary then_) t ++ " if " ::
         parens_if (is_Ternary cond) c ++ " else " :: o))
  /\ render (Ternary (Name "c") (Atom (VInt 1))
               (Ternary (Name "d") (Atom (VInt 2)) (Atom (VInt 3))))
     = Ok "1 if c else 2 if d else 3".
Proof.
  split; [|reflexivity].
  simpl tokens. rewrite !wrap_tokens_parens.
  destruct (tokens then_) as [t|x]; simpl; [|reflexivity].
  destruct (tokens cond) as [c|x]; reflexivity.
Qed.

Lemma GetAttr_wrap_child_tokens_base (e child : Expr) (role : string) :
  GetAttr_wrap_child_tokens e child role = base_wrapped e.
Proof.
  unfold GetAttr_wrap_child_tokens, base_wrapped, is_number_atom.
  destruct (is_operator_node e); [reflexivity|].
  destruct e; try reflexivity.
  simpl. now destruct (isinstance_number value).
Qed.

Lemma Call_tokens_all (e : Expr) (children : list Expr) :
  tokens (Call e children) =
    (f <- wrap_tokens (tokens e) (base_wrapped e) ;;
     ts <- tokens_all children ;;
     Ok (f ++ "(" :: interleave ", " ts ++ [")"])).
Proof.
  rewrite Call_tokens_unfold, Call_args_interleave.
  destruct (wrap_tokens (tokens e) (base_wrapped e)); simpl;
    [|reflexivity].
  destruct (tokens_all children); reflexivity.
Qed.

(** C6, as the code has it.  The base of a [GetAttr] and the callee of a
    [Call] are rendered in parentheses exactly when the node is a
    [BinOp], a [UnaryOp], an [And], an [Or], or an [Atom] whose value is
    an int, a float, a complex or a bool (a bool is an instance of int
    for the test made); every other base or callee is rendered bare. *)
Theorem base_wrapped_iff_operator_or_number
    (e : Expr) (attr : string) (children : list Expr) :
  (base_wrapped e = true <->
     is_BinOp e = true \/ is_UnaryOp e = true \/ is_And e = true \/
     is_Or e = true \/
     exists v, e = Atom v /\
               (numeric_kind v = true \/ exists b, v = VBool b))
  /\ (forall child role,
        GetAttr_wrap_child_tokens e child role = base_wrapped e)
  /\ tokens (GetAttr e attr) =
       (b <- tokens e ;; Ok (parens_if (base_wrapped e) b ++ ["."; attr]))
  /\ tokens (Call e children) =
       (f <- tokens e ;;
        ts <- tokens_all children ;;
        Ok (parens_if (base_wrapped e) f ++
            "(" :: interleave ", " ts ++ [")"])).
Proof.
  split; [|split; [|split]].
  - unfold base_wrapped, is_operator_node. split.
    + intro H. destruct e; simpl in H; try discriminate; auto 6.
      right; right; right; right. exists value. split; [reflexivity|].
      destruct value; simpl in H; try discriminate; eauto.
    + intros [H|[H|[H|[H|(v & -> & H)]]]];
        try (destruct e; simpl in H; try discriminate; reflexivity).
      destruct H as [H|[b ->]]; [|reflexivity].
      destruct v; simpl in H; try discriminate; reflexivity.
  - intros. apply GetAttr_wrap_child_tokens_base.
  - simpl tokens.
    rewrite GetAttr_wrap_child_tokens_base, wrap_tokens_parens.
    destruct (tokens e); reflexivity.
  - rewrite Call_tokens_all, wrap_tokens_parens.
    destruct (tokens e); reflexivity.
Qed.

(** C7. [Call.tokens] yields the fragments of the callee, wrapped or not,
    then ["("], then the fragments of each argument in list order with
    [", "] between two consecutive arguments, then [")"]; with no
    argument, ["("] and [")"] follow the callee directly; and [f] called
    on the starred [args] and the keyword [x=1] renders as
    "f(*args, x=1)". *)
Theorem Call_tokens_interleaved (e : Expr) (children : list Expr) :
  tokens (Call e children) =
    (f <- wrap_tokens (tokens e) (base_wrapped e) ;;
     ts <- tokens_all children ;;
     Ok (f ++ "(" :: interleave ", " ts ++ [")"]))
  /\ tokens (Call e []) =
       (f <- wrap_tokens (tokens e) (base_wrapped e) ;;
        Ok (f ++ ["("; ")"]))
  /\ render (Call (Name "f")
               [Starred (Name "args") false; Keyword (Atom (VInt 1)) "x"])
     = Ok "f(*args, x=1)".
Proof.
  split; [apply Call_tokens_all|split; [|reflexivity]].
  rewrite Call_tokens_all.
  destruct (wrap_tokens (tokens e) (base_wrapped e)); reflexivity.
Qed.

(** C8. Folding a [BinOp] of operator [tag] over the values [a] and [b]
    gives what [to_expr] gives on the result of the operator's host
    function on [a] and [b], and raises what that function raises: a node
    result is kept, a string result becomes a [Name], any other atom value
    an [Atom]. *)
Theorem BinOp_from_static_children_to_expr
    (tag : BinaryOpEnum.t) (a b : pyval) :
  BinOp_from_static_children tag a b =
    match BinaryOp_function tag a b with
    | Ok v => to_expr v
    | Err x => Err x
    end
  /\ BinOp_from_static_children tag a b =
     match BinaryOp_function tag a b with
     | Ok (PExpr e) => Ok e
     | Ok (PAtom (VStr s)) => Ok (Name s)
     | Ok (PAtom r) => Ok (Atom r)
     | Ok (POther c) => Err (UnsupportedValueError c)
     | Err x => Err x
     end.
Proof.
  split; [reflexivity|].
  unfold BinOp_from_static_children.
  destruct (BinaryOp_function tag a b) as [[r|e|c]|x]; reflexivity.
Qed.

(** C9. On a [Void] node, attribute access, indexing, a binary operator,
    a unary operator and a comparison all raise the TypeError of the
    void node, whatever their arguments, and so return no node. *)
Theorem Void_operations_raise
    (a : string) (value op other : pyval) (args : list pyval) :
  attr Void a = Err (TypeError (void_prefix ++ "getattr"))
  /\ index Void value = Err (TypeError (void_prefix ++ "getindex"))
  /\ binary_op Void op other =
       Err (TypeError (void_prefix ++ "binary operator"))
  /\ unary_op Void op = Err (TypeError (void_prefix ++ "unary operator"))
  /\ comparison_op Void op other args =
       Err (TypeError (void_prefix ++ "comparison operator"))
  /\ raises InvalidOperandError (attr Void a) = true
  /\ raises InvalidOperandError (index Void value) = true
  /\ raises InvalidOperandError (binary_op Void op other) = true
  /\ raises InvalidOperandError (unary_op Void op) = true
  /\ raises InvalidOperandError (comparison_op Void op other args) = true.
Proof. repeat split; reflexivity. Qed.

(** ** Further facts on rendering *)


Lemma BinOp_tokens_unfold (tag : BinaryOpEnum.t) (lhs rhs : Expr) :
  tokens (BinOp tag lhs rhs) =
    (l <- tokens lhs ;;
     r <- tokens rhs ;;
     Ok (parens_if (BinOp_wrap_child_tokens tag lhs "lhs") l ++
         (" " ++ BinaryOpEnum.value tag ++ " ")%string ::
         parens_if (BinOp_wrap_child_tokens tag rhs "rhs") r)).
Proof.
  simpl tokens. rewrite !wrap_tokens_parens.
  destruct (tokens lhs) as [l|x]; simpl; [|reflexivity].
  destruct (tokens rhs) as [r|x]; reflexivity.
Qed.

(** The decision of a [BinOp] parent depends on its operator through the
    precedence level only, and not on the role of the child. *)
Lemma BinOp_wrap_child_tokens_level (op1 op2 : BinaryOpEnum.t)
    (child : Expr) (role1 role2 : string) :
  BinaryOpEnum.precedence_level op1 = BinaryOpEnum.precedence_level op2 ->
  BinOp_wrap_child_tokens op1 child role1 =
  BinOp_wrap_child_tokens op2 child role2.
Proof.
  intro H. destruct child; simpl; try reflexivity. now rewrite H.
Qed.

(** X1. Two operators of the same precedence level nested to the right
    render as the same operators nested to the left: the inner node is in
    neither case put in parentheses, so [a - (b - c)] and [(a - b) - c]
    give the same fragments. *)
Theorem equal_precedence_nesting_renders_alike
    (op1 op2 : BinaryOpEnum.t) (l m r : Expr) :
  BinaryOpEnum.precedence_level op1 = BinaryOpEnum.precedence_level op2 ->
  tokens (BinOp op1 l (BinOp op2 m r)) =
  tokens (BinOp op2 (BinOp op1 l m) r)
  /\ tokens (BinOp op1 l (BinOp op2 m r)) =
     (tl <- tokens l ;;
      tm <- tokens m ;;
      tr <- tokens r ;;
      Ok (parens_if (BinOp_wrap_child_tokens op1 l "lhs") tl ++
          (" " ++ BinaryOpEnum.value op1 ++ " ")%string ::
          parens_if (BinOp_wrap_child_tokens op1 m "lhs") tm ++
          (" " ++ BinaryOpEnum.value op2 ++ " ")%string ::
          parens_if (BinOp_wrap_child_tokens op1 r "rhs") tr)).
Proof.
  intro H.
  assert (Hin1 : BinOp_wrap_child_tokens op1 (BinOp op2 m r) "rhs" = false).
  { simpl. rewrite H. apply Z.ltb_irrefl. }
  assert (Hin2 : BinOp_wrap_child_tokens op2 (BinOp op1 l m) "lhs" = false).
  { simpl. rewrite H. apply Z.ltb_irrefl. }
  rewrite !BinOp_tokens_unfold, Hin1, Hin2.
  rewrite (BinOp_wrap_child_tokens_level op2 op1 m "lhs" "lhs") by easy.
  rewrite (BinOp_wrap_child_tokens_level op2 op1 r "rhs" "rhs") by easy.
  rewrite (BinOp_wrap_child_tokens_level op1 op1 m "rhs" "lhs") by easy.
  destruct (tokens l) as [tl|x]; simpl; [|now split].
  destruct (tokens m) as [tm|x]; simpl; [|now split].
  destruct (tokens r) as [tr|x]; simpl; [|now split].
  split; [|reflexivity].
  now rewrite <- app_assoc.
Qed.



(** X3. An argument definition made from a name alone, the default and the
    annotation left out or passed as None, is the node with two [Void]
    children, and renders as its name: a None default is no default. *)
Theorem ArgDef_init_name_only (name : Expr) :
  ArgDef_init (PExpr name) (PAtom VNone) (PAtom VNone)
  = Ok (ArgDef name Void Void)
  /\ tokens (ArgDef name Void Void) = tokens name
  /\ ArgDef_init (PExpr name) (PExpr (Atom VNone)) (PAtom VNone)
     = Ok (ArgDef name (Atom VNone) Void)
  /\ tokens (ArgDef name (Atom VNone) Void) =
     (n <- tokens name ;; Ok (n ++ ["="; "None"])).
Proof.
  repeat split; try reflexivity.
  simpl. destruct (tokens name) as [n|x]; simpl; [|reflexivity].
  now rewrite app_nil_r.
Qed.

Lemma str_append_nil_r (s : string) : (s ++ "")%string = s.
Proof. induction s as [|c s IH]; simpl; [reflexivity|now rewrite IH]. Qed.

Lemma str_append_assoc (s t u : string) :
  ((s ++ t) ++ u)%string = (s ++ t ++ u)%string.
Proof. induction s as [|c s IH]; simpl; [reflexivity|now rewrite IH]. Qed.

Lemma concat_nil_cons (x : string) (xs : list string) :
  String.concat "" (x :: xs) = (x ++ String.concat "" xs)%string.
Proof. destruct xs; simpl; [now rewrite str_append_nil_r|reflexivity]. Qed.

Lemma concat_nil_app (l1 l2 : list string) :
  String.concat "" (l1 ++ l2) =
  (String.concat "" l1 ++ String.concat "" l2)%string.
Proof.
  induction l1 as [|x l1 IH]; [reflexivity|].
  change ((x :: l1) ++ l2) with (x :: (l1 ++ l2)).
  now rewrite !concat_nil_cons, IH, str_append_assoc.
Qed.

Lemma concat_parens_if (wrap : bool) (t : list string) :
  String.concat "" (parens_if wrap t) = paren_text wrap (String.concat "" t).
Proof.
  destruct wrap; [|reflexivity]. unfold parens_if, paren_text.
  rewrite concat_nil_cons, concat_nil_app. reflexivity.
Qed.

Lemma concat_interleave (sep : string) (ts : list (list string)) :
  String.concat "" (interleave sep ts) =
  String.concat sep (map (String.concat "") ts).
Proof.
  induction ts as [|t ts IH]; [reflexivity|].
  destruct ts as [|u ts]; [reflexivity|].
  change (interleave sep (t :: u :: ts))
    with (t ++ sep :: interleave sep (u :: ts)).
  rewrite concat_nil_app, concat_nil_cons, IH. reflexivity.
Qed.

Lemma render_all_tokens_all (l : list Expr) :
  render_all l =
    (ts <- tokens_all l ;; Ok (map (String.concat "") ts)).
Proof.
  induction l as [|a l IH]; [reflexivity|].
  simpl. unfold render at 1.
  destruct (tokens a) as [t|x]; simpl; [|reflexivity].
  rewrite IH. destruct (tokens_all l); reflexivity.
Qed.

Lemma render_Call (e : Expr) (children : list Expr) :
  render (Call e children) =
    (f <- render e ;;
     ts <- render_all children ;;
     Ok (paren_text (base_wrapped e) f ++
         "(" ++ String.concat ", " ts ++ ")")%string).
Proof.
  unfold render at 1 2.
  rewrite Call_tokens_all, wrap_tokens_parens, render_all_tokens_all.
  destruct (tokens e) as [f|x]; simpl; [|reflexivity].
  destruct (tokens_all children) as [ts|x]; simpl; [|reflexivity].
  rewrite concat_nil_app, concat_parens_if, concat_nil_cons, concat_nil_app.
  now rewrite concat_interleave.
Qed.

(** X4. The text of a call is made of the texts of its parts: the text
    of the callee, in parentheses when the callee is an operator node or a
    number, then an opening parenthesis, the texts of the arguments joined
    by a comma and a space, and a closing parenthesis; the first part that
    fails to render, callee first, gives the error. *)
Theorem Call_render_text (e : Expr) (children : list Expr) :
  render (Call e children) =
    (f <- render e ;;
     ts <- render_all children ;;
     Ok (paren_text (base_wrapped e) f ++
         "(" ++ String.concat ", " ts ++ ")")%string).
Proof. apply render_Call. Qed.

Lemma render_all_app (l1 l2 : list Expr) :
  render_all (l1 ++ l2) =
    (a <- render_all l1 ;; b <- render_all l2 ;; Ok (a ++ b)).
Proof.
  induction l1 as [|x l1 IH]; simpl.
  - destruct (render_all l2); reflexivity.
  - destruct (render x); simpl; [|reflexivity].
    rewrite IH. destruct (render_all l1); simpl; [|reflexivity].
    destruct (render_all l2); reflexivity.
Qed.

Lemma render_all_starred_names (kwstar : bool) (ns : list string) :
  render_all (map (fun n => Starred (Name n) kwstar) ns) =
    Ok (map (String.append (if kwstar then "**" else "*")) ns).
Proof.
  induction ns as [|n ns IH]; [reflexivity|].
  simpl map. simpl render_all. rewrite IH.
  destruct kwstar; reflexivity.
Qed.




End Host.

(** ** Facts on the argument generator *)

Lemma gen_prepend_nil (g : Gen) : gen_prepend [] g = g.
Proof. now destruct g. Qed.

Lemma gen_yield_normal (x : Expr) (g : Gen) (out : list Expr) :
  gen_yield x g = (out, None) ->
  exists out', out = x :: out' /\ g = (out', None).
Proof.
  destruct g as [ys e]. unfold gen_yield; simpl. intro H.
  injection H as <- ->. now exists ys.
Qed.

Lemma gen_yield_new_normal (r : result Expr) (g : Gen) (out : list Expr) :
  gen_yield_new r g = (out, None) ->
  exists x out', r = Ok x /\ out = x :: out' /\ g = (out', None).
Proof.
  destruct r as [x|e]; simpl; [|discriminate].
  intro H. apply gen_yield_normal in H as (out' & -> & ->).
  now exists x, out'.
Qed.

Lemma startswith_two_stars (s : string) :
  startswith "**" s = true -> startswith "*" s = true.
Proof.
  unfold startswith. destruct s as [|c s]; [discriminate|].
  change (prefix "**" (String c s))
    with (if ascii_dec "*"%char c then prefix "*" s else false).
  change (prefix "*" (String c s))
    with (if ascii_dec "*"%char c then prefix "" s else false).
  destruct (ascii_dec "*"%char c); [|discriminate].
  intros _. now destruct s.
Qed.

(** The loop over a list that starts with inputs it goes through without
    raising: it yields what they yield, and goes on with the rest from the
    state they leave. *)
Lemma generate_args_loop_app (n : nat) :
  forall (pre : list pyval) (hk : bool) (out : list Expr) (l : list pyval)
         (kw : Gen),
    length pre <= n ->
    generate_args_loop hk pre gen_done = (out, None) ->
    generate_args_loop hk (pre ++ l) kw =
      gen_prepend out (generate_args_loop (has_keyword_after hk pre) l kw).
Proof.
  induction n as [|n IH]; intros pre hk out l kw Hlen Hpre.
  - destruct pre; [|simpl in Hlen; lia].
    simpl in *. injection Hpre as <-. now rewrite gen_prepend_nil.
  - destruct pre as [|v rest].
    { simpl in *. injection Hpre as <-. now rewrite gen_prepend_nil. }
    simpl in Hlen.
    destruct v as [a|e|c].
    + destruct a; try discriminate Hpre.
      simpl in Hpre |- *.
      destruct (startswith "**" s) eqn:H2.
      * destruct (String.eqb s "**") eqn:Heq.
        -- destruct rest as [|v rest']; [discriminate Hpre|].
           simpl in Hlen.
           apply gen_yield_new_normal in Hpre as (x & out' & Hx & -> & Hg).
           simpl. rewrite Hx. simpl.
           rewrite (IH rest' true out' l kw); [reflexivity|lia|exact Hg].
        -- apply gen_yield_normal in Hpre as (out' & -> & Hg).
           rewrite (IH rest true out' l kw); [reflexivity|lia|exact Hg].
      * destruct (startswith "*" s) eqn:H1; [|discriminate Hpre].
        destruct hk; [discriminate Hpre|].
        destruct (String.eqb s "*") eqn:Heq.
        -- destruct rest as [|v rest']; [discriminate Hpre|].
           simpl in Hlen.
           apply gen_yield_new_normal in Hpre as (x & out' & Hx & -> & Hg).
           simpl. rewrite Hx. simpl.
           rewrite (IH rest' false out' l kw); [reflexivity|lia|exact Hg].
        -- apply gen_yield_normal in Hpre as (out' & -> & Hg).
           rewrite (IH rest false out' l kw); [reflexivity|lia|exact Hg].
    + simpl in Hpre |- *.
      apply gen_yield_normal in Hpre as (out' & -> & Hg).
      rewrite (IH rest hk out' l kw); [reflexivity|lia|exact Hg].
    + discriminate Hpre.
Qed.

Lemma generate_args_app (pre : list pyval) (out : list Expr)
    (l : list pyval) (kwargs : list (string * pyval)) :
  generate_args pre [] = (out, None) ->
  generate_args (pre ++ l) kwargs =
    gen_prepend out
      (generate_args_loop (has_keyword_after false pre) l
         (generate_kwargs kwargs)).
Proof.
  intro H. unfold generate_args.
  now apply (generate_args_loop_app (length pre)).
Qed.

(** X6. [from_args] builds the node that [add_args] leaves when it is run
    on a node without arguments, and raises what it raises. *)
Lemma from_args_as_add_args (e : Expr) (args : list pyval)
    (kwargs : list (string * pyval)) :
  from_args e args kwargs =
    (new <- snd (add_args e [] args kwargs) ;;
     Ok (Call e (fst (add_args e [] args kwargs)))).
Proof.
  unfold from_args, add_args.
  destruct (list_of_gen (generate_args args kwargs)); reflexivity.
Qed.

(** ** The claims on argument lists *)

(** C1. A plain positional node is yielded whatever [has_keyword] is: the
    test on [has_keyword] is made for a single-starred input only.  So
    [build_arguments(Name("a"), "**", Name("b"), Name("c"))] raises nothing
    and gives [a], [**b], [c], while the same call with ["*c"] in place of
    [Name("c")] raises the ValueError of the ordering; and
    [build_arguments(Name("a"), x=Name("b"))] gives [a] and then the
    keyword [x=b]. *)
Theorem positional_after_double_star_is_yielded :
  (forall has_keyword e rest kw,
      generate_args_loop has_keyword (PExpr e :: rest) kw =
      gen_yield e (generate_args_loop has_keyword rest kw))
  /\ build_arguments
       [PExpr (Name "a"); PStr "**"; PExpr (Name "b"); PExpr (Name "c")] []
     = Ok [Name "a"; Starred (Name "b") true; Name "c"]
  /\ build_arguments
       [PExpr (Name "a"); PStr "**"; PExpr (Name "b"); PStr "*c"] []
     = Err (ValueError msg)
  /\ build_arguments [PExpr (Name "a")] [("x", PExpr (Name "b"))]
     = Ok [Name "a"; Keyword (Name "b") "x"].
Proof. repeat split; reflexivity. Qed.

(** C3, as stated, fails: on a [Call] whose only argument is the keyword
    [x=1], [add_args("*xs")] raises nothing and appends [*xs] after the
    keyword. *)
Lemma add_args_after_keyword_accepts_star :
  keyword_terminated [Keyword (Atom (VInt 1)) "x"] = true
  /\ add_args (Name "f") [Keyword (Atom (VInt 1)) "x"] [PStr "*xs"] []
     = ([Keyword (Atom (VInt 1)) "x"; Starred (Name "xs") false],
        Ok [Starred (Name "xs") false])
  /\ raises ArgumentOrderError
       (snd (add_args (Name "f") [Keyword (Atom (VInt 1)) "x"]
               [PStr "*xs"] [])) = false.
Proof. repeat split; reflexivity. Qed.

(** C3, as the code has it.  [add_args] checks the arguments of the call
    alone: what it returns or raises is what [build_arguments] gives on
    them, whatever the arguments the node already has; the node's list is
    extended by the new arguments when there is no error and is left as it
    was otherwise.  Within one call, once a double-star marker has been
    gone through, a single-starred input raises the ValueError of the
    ordering. *)
Theorem add_args_checks_each_call_alone
    (expr : Expr) (children children' : list Expr)
    (args pre rest : list pyval) (s : string) (out : list Expr)
    (kwargs : list (string * pyval)) :
  generate_args pre [] = (out, None) ->
  has_keyword_after false pre = true ->
  single_star s = true ->
  snd (add_args expr children args kwargs) = build_arguments args kwargs
  /\ snd (add_args expr children' args kwargs) =
     snd (add_args expr children args kwargs)
  /\ fst (add_args expr children args kwargs) =
     match build_arguments args kwargs with
     | Ok new => children ++ new
     | Err _ => children
     end
  /\ add_args expr children (pre ++ PStr s :: rest) kwargs =
     (children, Err (ValueError msg)).
Proof.
  intros Hpre Hkw Hs.
  assert (Hsnd : forall c, snd (add_args expr c args kwargs) =
                           build_arguments args kwargs).
  { intro c. unfold add_args, build_arguments.
    now destruct (list_of_gen (generate_args args kwargs)). }
  split; [apply Hsnd|]. split; [now rewrite !Hsnd|]. split.
  - unfold add_args, build_arguments.
    now destruct (list_of_gen (generate_args args kwargs)).
  - unfold add_args. rewrite (generate_args_app pre out _ kwargs Hpre), Hkw.
    apply andb_true_iff in Hs as [H1 H2]. apply negb_true_iff in H2.
    unfold PStr. simpl generate_args_loop. rewrite H1, H2. reflexivity.
Qed.

(** C10. When the loop comes to a positional input that is a string not
    beginning with ["*"], the inputs before it having been gone through
    without an error, the generator stops on the TypeError that names
    [str], having yielded what the earlier inputs yield and no [Name] for
    the string, which [to_expr] would have made of it. *)
Theorem plain_string_positional_raises
    (pre rest : list pyval) (s : string) (out : list Expr)
    (kwargs : list (string * pyval)) :
  startswith "*" s = false ->
  generate_args pre [] = (out, None) ->
  generate_args (pre ++ PStr s :: rest) kwargs =
    (out, Some (TypeError "expect expression, got str"))
  /\ build_arguments (pre ++ PStr s :: rest) kwargs =
     Err (TypeError ("expect expression, got " ++ cls_name (PStr s)))
  /\ to_expr (PStr s) = Ok (Name s).
Proof.
  intros Hs Hpre.
  assert (H2 : startswith "**" s = false).
  { destruct (startswith "**" s) eqn:E; [|reflexivity].
    apply startswith_two_stars in E. congruence. }
  assert (Hgen : generate_args (pre ++ PStr s :: rest) kwargs =
                 (out, Some (TypeError "expect expression, got str"))).
  { rewrite (generate_args_app pre out _ kwargs Hpre).
    unfold PStr. simpl generate_args_loop. rewrite H2, Hs.
    unfold gen_prepend, gen_raise. simpl. now rewrite app_nil_r. }
  split; [exact Hgen|]. split; [|reflexivity].
  unfold build_arguments. rewrite Hgen. reflexivity.
Qed.

(** ** Instances *)

Lemma add_args_checks_each_call_alone_witness :
  generate_args [PStr "**kw"] [] = ([Starred (Name "kw") true], None)
  /\ has_keyword_after false [PStr "**kw"] = true
  /\ single_star "*a" = true
  /\ add_args (Name "f") [Name "x"] ([PStr "**kw"] ++ [PStr "*a"]) []
     = ([Name "x"], Err (ValueError msg)).
Proof.
  split; [reflexivity|]. split; [reflexivity|]. split; [reflexivity|].
  exact (proj2 (proj2 (proj2
    (add_args_checks_each_call_alone (Name "f") [Name "x"] [] []
       [PStr "**kw"] [] "*a" [Starred (Name "kw") true] []
       eq_refl eq_refl eq_refl)))).
Defined.

Lemma plain_string_positional_raises_witness :
  startswith "*" "abc" = false
  /\ generate_args [PExpr (Name "a")] [] = ([Name "a"], None)
  /\ build_arguments ([PExpr (Name "a")] ++ [PStr "abc"]) []
     = Err (TypeError "expect expression, got str").
Proof.
  split; [reflexivity|]. split; [reflexivity|].
  exact (proj1 (proj2
    (plain_string_positional_raises [PExpr (Name "a")] [] "abc"
       [Name "a"] [] eq_refl eq_refl))).
Defined.

(** C6, as stated, fails: [True] is not a number of the data model, yet as
    a callee and as a base it is rendered in parentheses. *)
Lemma boolean_base_is_wrapped :
  base_wrapped_numeric_kind (Atom (VBool true)) = false
  /\ base_wrapped (Atom (VBool true)) = true
  /\ tokens (fun s => s) (fun s => s) (fun _ _ _ _ => Ok [])
       (Call (Atom (VBool true)) [])
     = Ok ["("; "True"; ")"; "("; ")"]
  /\ tokens (fun s => s) (fun s => s) (fun _ _ _ _ => Ok [])
       (GetAttr (Atom (VBool true)) "real")
     = Ok ["("; "True"; ")"; "."; "real"].
Proof. repeat split; reflexivity. Qed.

(** C10, as stated, fails: the string ["abc"] that follows a bare ["*"]
    marker is a positional input not beginning with ["*"], and the builder
    raises no TypeError for it: it is taken as the operand of the marker.
    After a double-star marker the same inputs stop on the ValueError of
    the ordering, and not on a TypeError that names [str]. *)
Lemma string_after_bare_star_is_not_refused :
  startswith "*" "abc" = false
  /\ build_arguments [PStr "*"; PStr "abc"] []
     = Ok [Starred (Name "abc") false]
  /\ build_arguments [PStr "**kw"; PStr "*"; PStr "abc"] []
     = Err (ValueError msg).
Proof. repeat split; reflexivity. Qed.

(** ** Further facts on the argument generator *)

Lemma gen_then_done (k : Gen) : gen_then gen_done k = k.
Proof. now destruct k. Qed.

Lemma gen_then_yield (x : Expr) (g k : Gen) :
  gen_then (gen_yield x g) k = gen_yield x (gen_then g k).
Proof. destruct g as [ys [e|]]; reflexivity. Qed.

Lemma gen_then_yield_new (r : result Expr) (g k : Gen) :
  gen_then (gen_yield_new r g) k = gen_yield_new r (gen_then g k).
Proof. destruct r; [apply gen_then_yield|reflexivity]. Qed.

Lemma gen_then_normal (g k : Gen) (out : list Expr) :
  gen_then g k = (out, None) ->
  exists pos kos, g = (pos, None) /\ k = (kos, None) /\ out = pos ++ kos.
Proof.
  destruct g as [pos [e|]]; unfold gen_then; simpl; [discriminate|].
  destruct k as [kos e]. unfold gen_prepend; simpl.
  intro H. injection H as <- ->. now exists pos, kos.
Qed.

(** The loop followed by [kw] is the loop alone, then [kw] when the loop
    has not raised. *)
Lemma generate_args_loop_then (n : nat) :
  forall (args : list pyval) (hk : bool) (kw : Gen),
    length args <= n ->
    generate_args_loop hk args kw =
      gen_then (generate_args_loop hk args gen_done) kw.
Proof.
  induction n as [|n IH]; intros args hk kw Hlen.
  - destruct args; [|simpl in Hlen; lia].
    simpl. now rewrite gen_then_done.
  - destruct args as [|v rest]; [simpl; now rewrite gen_then_done|].
    simpl in Hlen.
    destruct v as [a|e|c]; [| |reflexivity].
    + destruct a; try reflexivity.
      simpl.
      destruct (startswith "**" s).
      * destruct (String.eqb s "**").
        -- destruct rest as [|v rest']; [reflexivity|].
           simpl in Hlen.
           rewrite gen_then_yield_new, <- (IH rest' true kw); [reflexivity|lia].
        -- rewrite gen_then_yield, <- (IH rest true kw); [reflexivity|lia].
      * destruct (startswith "*" s); [|reflexivity].
        destruct hk; [reflexivity|].
        destruct (String.eqb s "*").
        -- destruct rest as [|v rest']; [reflexivity|].
           simpl in Hlen.
           rewrite gen_then_yield_new, <- (IH rest' false kw);
             [reflexivity|lia].
        -- rewrite gen_then_yield, <- (IH rest false kw); [reflexivity|lia].
    + simpl. rewrite gen_then_yield, <- (IH rest hk kw); [reflexivity|lia].
Qed.

Lemma generate_args_then (args : list pyval)
    (kwargs : list (string * pyval)) :
  generate_args args kwargs =
    gen_then (generate_args args []) (generate_args [] kwargs).
Proof.
  unfold generate_args. simpl generate_kwargs at 2.
  now apply (generate_args_loop_then (length args)).
Qed.

Lemma build_arguments_then (args : list pyval)
    (kwargs : list (string * pyval)) :
  build_arguments args kwargs =
    (pos <- build_arguments args [] ;;
     kws <- build_arguments [] kwargs ;;
     Ok (pos ++ kws)).
Proof.
  unfold build_arguments. rewrite generate_args_then.
  destruct (generate_args args []) as [pos [e|]]; [reflexivity|].
  destruct (generate_args [] kwargs) as [kos [e|]]; reflexivity.
Qed.

(** X7. The keyword arguments always come after everything that the
    positional inputs give, in the order of the call, and the two parts
    are made independently: the list is the one built from the positional
    inputs alone followed by the one built from the keyword inputs alone,
    and an error of the positional part comes first. *)
Theorem keywords_follow_positional (args : list pyval)
    (kwargs : list (string * pyval)) :
  build_arguments args kwargs =
    (pos <- build_arguments args [] ;;
     kws <- build_arguments [] kwargs ;;
     Ok (pos ++ kws)).
Proof. apply build_arguments_then. Qed.

Lemma generate_args_nodes (es : list Expr) (hk : bool) :
  generate_args_loop hk (map PExpr es) gen_done = (es, None).
Proof.
  induction es as [|e es IH]; simpl; [reflexivity|]. now rewrite IH.
Qed.

Lemma generate_kwargs_nodes (kws : list (string * Expr)) :
  generate_kwargs (kwargs_of_nodes kws) = (keyword_nodes kws, None).
Proof.
  unfold kwargs_of_nodes, keyword_nodes.
  induction kws as [|[name e] kws IH]; simpl; [reflexivity|].
  now rewrite IH.
Qed.

(** X8. A call made from nodes alone keeps them as they are: [from_args]
    on positional nodes and on keyword values that are nodes gives the
    [Call] whose arguments are the positional nodes in order followed by
    one [Keyword] per keyword input, in order. *)
Theorem from_args_of_nodes (e : Expr) (es : list Expr)
    (kws : list (string * Expr)) :
  from_args e (map PExpr es) (kwargs_of_nodes kws) =
    Ok (Call e (es ++ keyword_nodes kws))
  /\ length (es ++ keyword_nodes kws) = length es + length kws.
Proof.
  split.
  - unfold from_args. rewrite generate_args_then. unfold generate_args.
    simpl generate_kwargs at 1. simpl generate_args_loop at 2.
    now rewrite generate_args_nodes, generate_kwargs_nodes.
  - unfold keyword_nodes. now rewrite length_app, length_map.
Qed.

(** X9. A positional input that is neither a string nor a node, reached
    after inputs gone through without an error, stops the generator on the
    TypeError that names its class: a host literal such as [5] is not
    coerced to an [Atom] here, and nothing is yielded for it or after it. *)
Theorem other_class_positional_raises
    (pre rest : list pyval) (v : pyval) (out : list Expr)
    (kwargs : list (string * pyval)) :
  is_str v = false ->
  is_Expr v = false ->
  generate_args pre [] = (out, None) ->
  generate_args (pre ++ v :: rest) kwargs =
    (out, Some (TypeError ("expect expression, got " ++ cls_name v)))
  /\ build_arguments (pre ++ v :: rest) kwargs =
     Err (TypeError ("expect expression, got " ++ cls_name v)).
Proof.
  intros Hs He Hpre.
  assert (Hgen : generate_args (pre ++ v :: rest) kwargs =
                 (out, Some (TypeError
                               ("expect expression, got " ++ cls_name v)))).
  { rewrite (generate_args_app pre out _ kwargs Hpre).
    destruct v as [a|e|c]; [|discriminate He|].
    - destruct a; try discriminate Hs;
        unfold gen_prepend, gen_raise; simpl; now rewrite app_nil_r.
    - unfold gen_prepend, gen_raise; simpl; now rewrite app_nil_r. }
  split; [exact Hgen|].
  unfold build_arguments. now rewrite Hgen.
Qed.

Lemma startswith_nil (s : string) : startswith "" s = true.
Proof. now destruct s. Qed.

Lemma startswith_star_cons (p s : string) :
  startswith (String "*" p) (String "*" s) = startswith p s.
Proof. reflexivity. Qed.

Lemma eqb_star_cons (s t : string) :
  String.eqb (String "*" s) (String "*" t) = String.eqb s t.
Proof. reflexivity. Qed.

(** X10. The shorthand with the name in the marker is the bare marker
    followed by the [Name] node: for a name that is not empty and does not
    begin with a star, ["**name"] is gone through as ["**"] and then
    [Name("name")], and ["*name"] as ["*"] and then [Name("name")], from
    any state of the loop and whatever follows. *)
Theorem star_shorthand_as_marker
    (n : string) (has_keyword : bool) (rest : list pyval) (kw : Gen) :
  String.eqb n "" = false ->
  startswith "*" n = false ->
  generate_args_loop has_keyword (PStr ("**" ++ n) :: rest) kw =
  generate_args_loop has_keyword (PStr "**" :: PExpr (Name n) :: rest) kw
  /\ generate_args_loop has_keyword (PStr ("*" ++ n) :: rest) kw =
     generate_args_loop has_keyword (PStr "*" :: PExpr (Name n) :: rest) kw.
Proof.
  intros Hn Hs. split.
  - unfold PStr. cbn [generate_args_loop append].
    rewrite !startswith_star_cons, startswith_nil.
    rewrite !eqb_star_cons, Hn.
    change (startswith "**" "**") with true.
    change (String.eqb "**" "**") with true.
    reflexivity.
  - unfold PStr. cbn [generate_args_loop append].
    change (startswith "**" (String "*" n)) with (startswith "*" n).
    rewrite Hs, startswith_star_cons, startswith_nil.
    rewrite eqb_star_cons, Hn.
    change (startswith "**" "*") with false.
    change (startswith "*" "*") with true.
    change (String.eqb "*" "*") with true.
    destruct has_keyword; reflexivity.
Qed.

Lemma Starred_new_shape (v : pyval) (kwstar : bool) (x : Expr) :
  Starred_new v kwstar = Ok x -> exists e, x = Starred e kwstar.
Proof.
  unfold Starred_new. destruct (to_expr v) as [e|err]; simpl; [|discriminate].
  intro H. injection H as <-. now exists e.
Qed.

Lemma star_ordered_node (seen : bool) (e : Expr) (l : list Expr) :
  not_Starred_input (PExpr e) = true ->
  star_ordered seen (e :: l) = star_ordered seen l.
Proof. destruct e; simpl; try reflexivity. discriminate. Qed.

Lemma star_ordered_keywords (seen : bool) (kos : list Expr) :
  Forall (fun e => is_Keyword e = true) kos -> star_ordered seen kos = true.
Proof.
  induction 1 as [|e l He _ IH]; [reflexivity|].
  destruct e; try discriminate He. exact IH.
Qed.

Lemma star_ordered_app_keywords (pos kos : list Expr) :
  Forall (fun e => is_Keyword e = true) kos ->
  forall seen, star_ordered seen (pos ++ kos) = star_ordered seen pos.
Proof.
  intro Hk. induction pos as [|e pos IH]; intro seen.
  - simpl. now apply star_ordered_keywords.
  - destruct e; simpl; try apply IH.
    destruct kwstar; [apply IH|]. now rewrite IH.
Qed.

Lemma generate_kwargs_keywords (kwargs : list (string * pyval))
    (kos : list Expr) :
  generate_kwargs kwargs = (kos, None) ->
  Forall (fun e => is_Keyword e = true) kos.
Proof.
  revert kos. induction kwargs as [|[name v] kwargs IH]; intros kos H.
  - injection H as <-. constructor.
  - simpl in H.
    apply gen_yield_new_normal in H as (x & out' & Hx & -> & Hg).
    constructor; [|now apply IH].
    unfold Keyword_new in Hx. destruct (to_expr v); [|discriminate].
    simpl in Hx. now injection Hx as <-.
Qed.

(** The loop keeps the order of the stars: what it yields without raising
    from inputs that are not [Starred] nodes is ordered, from its state. *)
Lemma generate_args_loop_star_ordered (n : nat) :
  forall (args : list pyval) (hk : bool) (pos : list Expr),
    length args <= n ->
    forallb not_Starred_input args = true ->
    generate_args_loop hk args gen_done = (pos, None) ->
    star_ordered hk pos = true.
Proof.
  induction n as [|n IH]; intros args hk pos Hlen Hin Hgen.
  - destruct args; [|simpl in Hlen; lia].
    simpl in Hgen. now injection Hgen as <-.
  - destruct args as [|v rest].
    { simpl in Hgen. now injection Hgen as <-. }
    simpl in Hlen. simpl in Hin.
    apply andb_true_iff in Hin as [Hv Hrest].
    destruct v as [a|e|c]; [| |discriminate Hgen].
    + destruct a; try discriminate Hgen.
      simpl in Hgen.
      destruct (startswith "**" s).
      * destruct (String.eqb s "**").
        -- destruct rest as [|v rest']; [discriminate Hgen|].
           simpl in Hlen, Hrest.
           apply andb_true_iff in Hrest as [_ Hrest'].
           apply gen_yield_new_normal in Hgen as (x & out' & Hx & -> & Hg).
           apply Starred_new_shape in Hx as [e ->]. simpl.
           apply (IH rest' true out'); [lia|exact Hrest'|exact Hg].
        -- apply gen_yield_normal in Hgen as (out' & -> & Hg). simpl.
           apply (IH rest true out'); [lia|exact Hrest|exact Hg].
      * destruct (startswith "*" s); [|discriminate Hgen].
        destruct hk; [discriminate Hgen|].
        destruct (String.eqb s "*").
        -- destruct rest as [|v rest']; [discriminate Hgen|].
           simpl in Hlen, Hrest.
           apply andb_true_iff in Hrest as [_ Hrest'].
           apply gen_yield_new_normal in Hgen as (x & out' & Hx & -> & Hg).
           apply Starred_new_shape in Hx as [e ->]. simpl.
           apply (IH rest' false out'); [lia|exact Hrest'|exact Hg].
        -- apply gen_yield_normal in Hgen as (out' & -> & Hg). simpl.
           apply (IH rest false out'); [lia|exact Hrest|exact Hg].
    + simpl in Hgen.
      apply gen_yield_normal in Hgen as (out' & -> & Hg).
      rewrite star_ordered_node by exact Hv.
      apply (IH rest hk out'); [lia|exact Hrest|exact Hg].
Qed.

(** X11. In every argument list that [build_arguments] returns for inputs
    that are not themselves [Starred] nodes, no single-starred argument
    comes after a double-starred one. *)
Theorem accepted_arguments_star_ordered
    (args : list pyval) (kwargs : list (string * pyval))
    (out : list Expr) :
  forallb not_Starred_input args = true ->
  build_arguments args kwargs = Ok out ->
  star_ordered false out = true.
Proof.
  intros Hin Hb. unfold build_arguments, list_of_gen in Hb.
  destruct (generate_args args kwargs) as [ys [e|]] eqn:Hg;
    simpl in Hb; [discriminate|]. injection Hb as ->.
  rewrite generate_args_then in Hg.
  apply gen_then_normal in Hg as (pos & kos & Hpos & Hkos & ->).
  rewrite star_ordered_app_keywords
    by (apply (generate_kwargs_keywords kwargs); exact Hkos).
  now apply (generate_args_loop_star_ordered (length args) args).
Qed.

Lemma list_of_gen_prepend (out : list Expr) (g : Gen) :
  list_of_gen (gen_prepend out g) =
    (new <- list_of_gen g ;; Ok (out ++ new)).
Proof. destruct g as [ys [e|]]; reflexivity. Qed.

(** X12. Inputs gone through without an error and without a double-star
    marker can be split off: the list for them followed by other inputs is
    their list followed by the list of the other inputs.  So two
    successive [add_args] calls, the first with such inputs and no keyword,
    leave the node with the arguments that one call with all the inputs
    leaves it, when the second call raises nothing; when it raises, the
    arguments of the first call stay. *)
Theorem build_arguments_app
    (expr : Expr) (children : list Expr) (a1 a2 : list pyval)
    (out1 : list Expr) (kwargs : list (string * pyval)) :
  generate_args a1 [] = (out1, None) ->
  has_keyword_after false a1 = false ->
  build_arguments (a1 ++ a2) kwargs =
    (new <- build_arguments a2 kwargs ;; Ok (out1 ++ new))
  /\ fst (add_args expr (fst (add_args expr children a1 [])) a2 kwargs) =
     match build_arguments a2 kwargs with
     | Ok _ => fst (add_args expr children (a1 ++ a2) kwargs)
     | Err _ => children ++ out1
     end.
Proof.
  intros H1 Hk.
  assert (Happ : build_arguments (a1 ++ a2) kwargs =
                 (new <- build_arguments a2 kwargs ;; Ok (out1 ++ new))).
  { unfold build_arguments.
    rewrite (generate_args_app a1 out1 a2 kwargs H1), Hk.
    apply list_of_gen_prepend. }
  split; [exact Happ|].
  unfold build_arguments in Happ. unfold add_args at 2.
  rewrite H1. simpl fst. unfold add_args, build_arguments.
  rewrite Happ.
  destruct (list_of_gen (generate_args a2 kwargs)) as [new|e]; simpl;
    [now rewrite app_assoc|reflexivity].
Qed.

Lemma plain_name_inv (n : string) :
  plain_name n = true ->
  String.eqb n "" = false /\ startswith "*" n = false.
Proof.
  unfold plain_name. intro H. apply andb_true_iff in H as [H1 H2].
  now apply negb_true_iff in H1, H2.
Qed.

Lemma generate_args_loop_single (n : string) (rest : list pyval) (kw : Gen) :
  plain_name n = true ->
  generate_args_loop false (PStr ("*" ++ n) :: rest) kw =
  gen_yield (Starred (Name n) false) (generate_args_loop false rest kw).
Proof.
  intro H. apply plain_name_inv in H as [Hn Hs].
  unfold PStr. cbn [generate_args_loop append].
  change (startswith "**" (String "*" n)) with (startswith "*" n).
  rewrite Hs, startswith_star_cons, startswith_nil, eqb_star_cons, Hn.
  reflexivity.
Qed.

Lemma generate_args_loop_double (k : string) (hk : bool)
    (rest : list pyval) (kw : Gen) :
  plain_name k = true ->
  generate_args_loop hk (PStr ("**" ++ k) :: rest) kw =
  gen_yield (Starred (Name k) true) (generate_args_loop true rest kw).
Proof.
  intro H. apply plain_name_inv in H as [Hn _].
  unfold PStr. cbn [generate_args_loop append].
  rewrite !startswith_star_cons, startswith_nil, !eqb_star_cons, Hn.
  reflexivity.
Qed.

Lemma generate_args_loop_doubles (ks : list string) (hk : bool) :
  forallb plain_name ks = true ->
  generate_args_loop hk (map (fun k => PStr ("**" ++ k)) ks) gen_done =
  (map (fun k => Starred (Name k) true) ks, None).
Proof.
  revert hk. induction ks as [|k ks IH]; intros hk H; [reflexivity|].
  simpl in H. apply andb_true_iff in H as [Hk Hks].
  cbn [map]. rewrite (generate_args_loop_double k hk _ _ Hk), (IH true Hks).
  reflexivity.
Qed.

Lemma generate_args_star_args (ns ks : list string) :
  forallb plain_name ns = true ->
  forallb plain_name ks = true ->
  generate_args (star_args ns ks) [] =
  (map (fun n => Starred (Name n) false) ns ++
   map (fun k => Starred (Name k) true) ks, None).
Proof.
  intros Hns Hks. unfold generate_args, star_args. simpl generate_kwargs.
  induction ns as [|n ns IH].
  - cbn [map app]. now apply generate_args_loop_doubles.
  - simpl in Hns. apply andb_true_iff in Hns as [Hn Hns].
    cbn [map app].
    rewrite (generate_args_loop_single n _ _ Hn), (IH Hns). reflexivity.
Qed.

(** X13. The star shorthands come back as they went in: the call of the
    name [f] made by [from_args] from the inputs ["*n"], for names [n], and
    then ["**k"], for names [k], renders as [f], an opening parenthesis,
    those same inputs joined by a comma and a space, and a closing
    parenthesis. *)
Theorem star_shorthand_round_trip
    (repr_str repr_bytes : string -> string)
    (Lambda_tokens :
       list Expr -> Expr -> option string -> bool -> result (list string))
    (f : string) (ns ks : list string) :
  forallb plain_name ns = true ->
  forallb plain_name ks = true ->
  (c <- from_args (Name f) (star_args ns ks) [] ;;
   render repr_str repr_bytes Lambda_tokens c) =
  Ok (f ++ "(" ++
      String.concat ", "
        (map (String.append "*") ns ++ map (String.append "**") ks)
      ++ ")")%string.
Proof.
  intros Hns Hks. unfold from_args, list_of_gen.
  rewrite (generate_args_star_args ns ks Hns Hks). simpl.
  rewrite render_Call, render_all_app, !render_all_starred_names.
  reflexivity.
Qed.

(** X14. A double-starred argument passed as a [Starred] node, and not
    through a marker, leaves [has_keyword] as it was: a single-starred
    shorthand after it is accepted, and the list returned has a
    single-starred argument after a double-starred one. *)
Theorem starred_node_sets_no_keyword_state
    (e : Expr) (n : string) (kwargs : list (string * pyval)) :
  plain_name n = true ->
  build_arguments [PExpr (Starred e true); PStr ("*" ++ n)] [] =
    Ok [Starred e true; Starred (Name n) false]
  /\ star_ordered false [Starred e true; Starred (Name n) false] = false
  /\ build_arguments [PStr "**"; PExpr e; PStr ("*" ++ n)] kwargs =
     Err (ValueError msg).
Proof.
  intro Hn. apply plain_name_inv in Hn as Hinv. destruct Hinv as [Hne Hs].
  split; [|split; [reflexivity|]].
  - unfold build_arguments, generate_args.
    change (generate_args_loop false
              [PExpr (Starred e true); PStr ("*" ++ n)] (generate_kwargs []))
      with (gen_yield (Starred e true)
              (generate_args_loop false [PStr ("*" ++ n)]
                 (generate_kwargs []))).
    now rewrite (generate_args_loop_single n [] _ Hn).
  - unfold build_arguments, generate_args, PStr.
    cbn [generate_args_loop append].
    change (startswith "**" "**") with true.
    change (String.eqb "**" "**") with true.
    change (startswith "**" (String "*" n)) with (startswith "*" n).
    rewrite Hs, startswith_star_cons, startswith_nil. reflexivity.
Qed.

(** ** Further instances *)

Lemma equal_precedence_nesting_renders_alike_witness :
  BinaryOpEnum.precedence_level BinaryOpEnum.Sub =
  BinaryOpEnum.precedence_level BinaryOpEnum.Add
  /\ tokens (fun s => s) (fun s => s) (fun _ _ _ _ => Ok [])
       (BinOp BinaryOpEnum.Sub (Name "a")
          (BinOp BinaryOpEnum.Add (Name "b") (Name "c")))
     = tokens (fun s => s) (fun s => s) (fun _ _ _ _ => Ok [])
         (BinOp BinaryOpEnum.Add
            (BinOp BinaryOpEnum.Sub (Name "a") (Name "b")) (Name "c")).
Proof.
  split; [reflexivity|].
  exact (proj1 (equal_precedence_nesting_renders_alike
                  (fun s => s) (fun s => s) (fun _ _ _ _ => Ok [])
                  BinaryOpEnum.Sub BinaryOpEnum.Add
                  (Name "a") (Name "b") (Name "c") eq_refl)).
Defined.


Lemma other_class_positional_raises_witness :
  is_str (PAtom (VInt 5)) = false
  /\ is_Expr (PAtom (VInt 5)) = false
  /\ generate_args [PExpr (Name "a")] [] = ([Name "a"], None)
  /\ build_arguments ([PExpr (Name "a")] ++ [PAtom (VInt 5)]) []
     = Err (TypeError "expect expression, got int").
Proof.
  split; [reflexivity|]. split; [reflexivity|]. split; [reflexivity|].
  exact (proj2 (other_class_positional_raises [PExpr (Name "a")] []
                  (PAtom (VInt 5)) [Name "a"] [] eq_refl eq_refl eq_refl)).
Defined.

Lemma star_shorthand_as_marker_witness :
  String.eqb "kw" "" = false
  /\ startswith "*" "kw" = false
  /\ generate_args_loop false [PStr "**kw"] gen_done =
     generate_args_loop false [PStr "**"; PExpr (Name "kw")] gen_done.
Proof.
  split; [reflexivity|]. split; [reflexivity|].
  exact (proj1 (star_shorthand_as_marker "kw" false [] gen_done
                  eq_refl eq_refl)).
Defined.

Lemma accepted_arguments_star_ordered_witness :
  forallb not_Starred_input [PStr "*a"; PStr "**kw"; PExpr (Name "c")] = true
  /\ build_arguments [PStr "*a"; PStr "**kw"; PExpr (Name "c")] [] =
     Ok [Starred (Name "a") false; Starred (Name "kw") true; Name "c"]
  /\ star_ordered false
       [Starred (Name "a") false; Starred (Name "kw") true; Name "c"] = true.
Proof.
  split; [reflexivity|]. split; [reflexivity|].
  exact (accepted_arguments_star_ordered
           [PStr "*a"; PStr "**kw"; PExpr (Name "c")] []
           [Starred (Name "a") false; Starred (Name "kw") true; Name "c"]
           eq_refl eq_refl).
Defined.

Lemma build_arguments_app_witness :
  generate_args [PExpr (Name "a"); PStr "*b"] [] =
    ([Name "a"; Starred (Name "b") false], None)
  /\ has_keyword_after false [PExpr (Name "a"); PStr "*b"] = false
  /\ build_arguments ([PExpr (Name "a"); PStr "*b"] ++ [PStr "**kw"])
       [("x", PExpr (Name "c"))]
     = (new <- build_arguments [PStr "**kw"] [("x", PExpr (Name "c"))] ;;
        Ok ([Name "a"; Starred (Name "b") false] ++ new)).
Proof.
  split; [reflexivity|]. split; [reflexivity|].
  exact (proj1 (build_arguments_app (Name "f") []
                  [PExpr (Name "a"); PStr "*b"] [PStr "**kw"]
                  [Name "a"; Starred (Name "b") false]
                  [("x", PExpr (Name "c"))] eq_refl eq_refl)).
Defined.

Lemma star_shorthand_round_trip_witness :
  forallb plain_name ["args"] = true
  /\ forallb plain_name ["kw"] = true
  /\ (c <- from_args (Name "f") (star_args ["args"] ["kw"]) [] ;;
      render (fun s => s) (fun s => s) (fun _ _ _ _ => Ok []) c)
     = Ok "f(*args, **kw)".
Proof.
  split; [reflexivity|]. split; [reflexivity|].
  exact (star_shorthand_round_trip (fun s => s) (fun s => s)
           (fun _ _ _ _ => Ok []) "f" ["args"] ["kw"] eq_refl eq_refl).
Defined.

Lemma starred_node_sets_no_keyword_state_witness :
  plain_name "a" = true
  /\ build_arguments [PExpr (Starred (Name "kw") true); PStr ("*" ++ "a")] []
     = Ok [Starred (Name "kw") true; Starred (Name "a") false].
Proof.
  split; [reflexivity|].
  exact (proj1 (starred_node_sets_no_keyword_state (Name "kw") "a" []
                  eq_refl)).
Defined.
